(** * Mission planner core: tile server and MAVLink link monitor

    A shallow embedding of [mission_planner/tile_server.py] and
    [mission_planner/workers/mavlink_worker.py], and the properties the
    design document states about them.

    - Python integers are unbounded: they are [Z].  No [MemoryError] is
      modelled; the one operation whose result grows with the input, the
      shift of line 20, is kept within [Py.shift_limit] where a statement
      depends on its being computed.
    - Python floats are IEEE binary64: they are Rocq's primitive [float].
    - A handler run is a trace of the calls it makes to the HTTP and SQLite
      layers, together with how it ended (returned, or raised).
    - The worker's loop is given twice: as a function from the passes the
      world supplies to the signals emitted, and as a machine over program
      points that another thread can interleave with. *)

From Stdlib Require Import ZArith List String Ascii Bool Lia Floats.
Import ListNotations.

Set Warnings "-inexact-float".
Open Scope Z_scope.

(** ** The pieces of the Python runtime the two files lean on *)

Module Py.

(** The exception classes that can escape the modelled code. *)
Inductive exn : Set :=
| ValueError
| FileNotFoundError
| OverflowError
| TypeError.

Inductive result (A : Type) : Type :=
| Ok (a : A)
| Err (e : exn).
Arguments Ok {A} a.
Arguments Err {A} e.

(** [s.lstrip(c)] and [s.rstrip(c)] for a one-character set, and
    [s.strip(c)]. *)
Fixpoint lstrip (c : ascii) (s : string) : string :=
  match s with
  | EmptyString => EmptyString
  | String a s' => if Ascii.eqb a c then lstrip c s' else s
  end.

Fixpoint rstrip (c : ascii) (s : string) : string :=
  match s with
  | EmptyString => EmptyString
  | String a s' =>
      match rstrip c s' with
      | EmptyString => if Ascii.eqb a c then EmptyString else String a EmptyString
      | r => String a r
      end
  end.

Definition strip (c : ascii) (s : string) : string := rstrip c (lstrip c s).

(** [s.split(sep)] with a one-character separator: never the empty list,
    empty fields are kept. *)
Fixpoint split (sep : ascii) (s : string) : list string :=
  match s with
  | EmptyString => [EmptyString]
  | String a s' =>
      if Ascii.eqb a sep then EmptyString :: split sep s'
      else match split sep s' with
           | h :: t => String a h :: t
           | [] => [String a EmptyString]
           end
  end.

(** [int(s)] on a [str] of 8-bit characters (the request line is decoded
    as ISO-8859-1, so [self.path] is one), base 10: surrounding white
    space is dropped, then an optional sign, then decimal digits in which
    single underscores may separate digits.  Anything else is a
    [ValueError]; so is a literal of more than [int_max_str_digits] digits
    (the default of [sys.get_int_max_str_digits()] since CPython 3.11).

    The white space [int] drops is, among 8-bit characters, tab to carriage
    return, the space, NEL (0x85) and the no-break space (0xA0); the
    separators 0x1C to 0x1F stay and make the literal invalid. *)
Definition int_max_str_digits : nat := 4300.

Definition isspace (c : ascii) : bool :=
  let n := nat_of_ascii c in
  (((9 <=? n) && (n <=? 13)) || (n =? 32) || (n =? 133) || (n =? 160))%nat.

Definition isdigit (c : ascii) : bool :=
  let n := nat_of_ascii c in ((48 <=? n) && (n <=? 57))%nat.

Definition digit_value (c : ascii) : Z := Z.of_nat (nat_of_ascii c) - 48.

Fixpoint lstrip_space (s : string) : string :=
  match s with
  | EmptyString => EmptyString
  | String a s' => if isspace a then lstrip_space s' else s
  end.

Fixpoint rstrip_space (s : string) : string :=
  match s with
  | EmptyString => EmptyString
  | String a s' =>
      match rstrip_space s' with
      | EmptyString => if isspace a then EmptyString else String a EmptyString
      | r => String a r
      end
  end.

(** The digit loop: [acc] is the value so far, [n] the digits seen,
    [after_underscore] whether the previous character was ["_"]. *)
Fixpoint digits (acc : Z) (n : nat) (after_underscore : bool) (s : string)
  : option (Z * nat) :=
  match s with
  | EmptyString => if after_underscore then None else Some (acc, n)
  | String c s' =>
      if isdigit c then digits (10 * acc + digit_value c) (S n) false s'
      else if Ascii.eqb c "_"%char
           then if after_underscore then None else digits acc n true s'
           else None
  end.

Definition unsigned_literal (s : string) : option Z :=
  match s with
  | EmptyString => None
  | String c _ =>
      if isdigit c then
        match digits 0 0 false s with
        | Some (v, n) => if (n <=? int_max_str_digits)%nat then Some v else None
        | None => None
        end
      else None
  end.

Definition int (s : string) : result Z :=
  let body := rstrip_space (lstrip_space s) in
  let signed :=
    match body with
    | String "-"%char rest => option_map Z.opp (unsigned_literal rest)
    | String "+"%char rest => unsigned_literal rest
    | _ => unsigned_literal body
    end in
  match signed with
  | Some v => Ok v
  | None => Err ValueError
  end.

(** [a << n] on integers: a negative shift count is a [ValueError]; any
    other count gives the exact product with [2^n]. *)
Definition lshift (a n : Z) : result Z :=
  if n <? 0 then Err ValueError else Ok (Z.shiftl a n).

(** The interpreter builds [1 << n] only while it has the memory for a
    result of [n] bits: past that the shift raises [MemoryError], and
    [OverflowError] once the result would have more digits than an [int]
    can.  [lshift] is the shift where the result is built.  Statements on
    what the handler goes on to do after line 20 keep the count within
    [shift_limit], a result of 128 KiB, unless their other hypotheses
    bound it already. *)
Definition shift_limit : Z := 2 ^ 20.

End Py.

(** ** tile_server.py *)

Module TileServer.
Import Py.

(** What a column of a fetched row can hold (the values the [sqlite3]
    module hands back: [None], [int], [float], [str], [bytes]). *)
Inductive sql_value : Type :=
| SqlNull
| SqlInteger (n : Z)
| SqlReal (f : float)
| SqlText (s : string)
| SqlBlob (b : list Byte.byte).

(** One row of the [tiles] table of the MBTiles archive. *)
Record tile : Type := mk_tile {
  zoom_level : Z;
  tile_column : Z;
  tile_row : Z;
  tile_data : sql_value
}.

(** The file at [MBTILES]: [None] when [MBTILES.exists()] is false,
    otherwise the rows of its [tiles] table in scan order. *)
Definition mbtiles : Type := option (list tile).

(** The calls a handler makes on the response and on the database. *)
Inductive call : Type :=
| send_error (code : Z)
| send_response (code : Z)
| send_header (keyword value : string)
| end_headers
| wfile_write (body : list Byte.byte)
| sqlite3_connect
| cursor_execute (z x y : Z)
| conn_close.

(** A computation that logs calls and either yields a value or raises. *)
Definition io (A : Type) : Type := list call * result A.

Definition ret {A} (a : A) : io A := ([], Ok a).
Definition raise {A} (e : exn) : io A := ([], Err e).
Definition do_call (c : call) : io unit := ([c], Ok tt).
Definition lift {A} (r : result A) : io A := ([], r).
Definition bind {A B} (m : io A) (k : A -> io B) : io B :=
  match m with
  | (t, Ok a) => let (t', r) := k a in (t ++ t', r)
  | (t, Err e) => (t, Err e)
  end.

Notation "x <- m ;; k" := (bind m (fun x => k))
  (at level 61, m at next level, right associativity).
Notation "m ;;; k" := (bind m (fun _ => k))
  (at level 61, right associativity).

(** Line 20: the XYZ (top-left origin) row of Leaflet turned into the TMS
    (bottom-left origin) row MBTiles stores. *)
Definition tms_row (z y : Z) : result Z :=
  match lshift 1 z with
  | Ok p => Ok (p - 1 - y)
  | Err e => Err e
  end.

(** Binding a Python [int] as a statement parameter: SQLite integers are
    signed 64-bit, anything else is an [OverflowError]. *)
Definition fits_int64 (n : Z) : bool :=
  (- 2 ^ 63 <=? n) && (n <=? 2 ^ 63 - 1).

Definition matches (z x y : Z) (t : tile) : bool :=
  (zoom_level t =? z) && (tile_column t =? x) && (tile_row t =? y).

(** [cur.execute(SELECT tile_data ... WHERE ..., (z, x, y))] followed by
    [cur.fetchone()]: the first matching row, as its one column. *)
Definition execute_fetchone (db : list tile) (z x y : Z)
  : io (option sql_value) :=
  do_call (cursor_execute z x y) ;;;
  if fits_int64 z && fits_int64 x && fits_int64 y
  then ret (option_map tile_data (find (matches z x y) db))
  else raise OverflowError.

(** [self.wfile.write(v)] needs a bytes-like object. *)
Definition write (v : sql_value) : io unit :=
  match v with
  | SqlBlob b => do_call (wfile_write b)
  | _ => raise TypeError
  end.

(** [z, x, y = map(int, parts)] once [len(parts) == 3] is known. *)
Definition unpack3 (parts : list string) : io (Z * Z * Z) :=
  match parts with
  | [a; b; c] =>
      z <- lift (int a) ;;
      x <- lift (int b) ;;
      y <- lift (int c) ;;
      ret (z, x, y)
  | _ => raise ValueError
  end.

(** The segments [do_GET] works on. *)
Definition segments (path : string) : list string :=
  split "/"%char (strip "/"%char path).

(** [TileHandler.do_GET], with the file at [MBTILES] and [self.path]. *)
Definition do_GET (archive : mbtiles) (path : string) : io unit :=
  let parts := segments path in
  if negb (Nat.eqb (List.length parts) 3) then
    do_call (send_error 404)
  else
    zxy <- unpack3 parts ;;
    let '(z, x, y) := zxy in
    y <- lift (tms_row z y) ;;
    match archive with
    | None => raise FileNotFoundError
    | Some db =>
        do_call sqlite3_connect ;;;
        row <- execute_fetchone db z x y ;;
        do_call conn_close ;;;
        match row with
        | None => do_call (send_error 404)
        | Some data =>
            do_call (send_response 200) ;;;
            do_call (send_header "Content-Type" "image/png") ;;;
            do_call end_headers ;;;
            write data
        end
    end.

(** [run]: the server is built and serves; nothing looks at [MBTILES]
    before a request does.  [HTTPServer] handles one request after the
    other and survives a handler that raises, so a run over some requests is
    the list of what each handler did. *)
Definition run (archive : mbtiles) (requests : list string)
  : list (io unit) :=
  map (do_GET archive) requests.

(** *** Vocabulary for the statements below *)

(** [path] splits into three segments that [int] reads as [z], [x], [y]. *)
Definition three_ints (path : string) (z x y : Z) : Prop :=
  exists a b c,
    segments path = [a; b; c] /\ int a = Ok z /\ int b = Ok x /\ int c = Ok y.

(** What lines 39-46 do with the fetched row. *)
Definition reply (found : option sql_value) : io unit :=
  match found with
  | None => ([send_error 404], Ok tt)
  | Some (SqlBlob b) =>
      ([send_response 200; send_header "Content-Type" "image/png";
        end_headers; wfile_write b], Ok tt)
  | Some _ =>
      ([send_response 200; send_header "Content-Type" "image/png";
        end_headers], Err TypeError)
  end.

(** The row [fetchone] returns for a key, as its one column. *)
Definition lookup (db : list tile) (z x y : Z) : option sql_value :=
  option_map tile_data (find (matches z x y) db).

(** *** Vocabulary for the further properties *)

(** How often [c] occurs in [s]. *)
Fixpoint count_char (c : ascii) (s : string) : nat :=
  match s with
  | EmptyString => 0
  | String a s' => (if Ascii.eqb a c then 1 else 0) + count_char c s'
  end.

(** The characters an integer literal accepted by [int] is made of. *)
Definition int_char (c : ascii) : bool :=
  isdigit c || isspace c || Ascii.eqb c "_"%char || Ascii.eqb c "+"%char
  || Ascii.eqb c "-"%char.

(** The calls that start a response, and the calls on the database. *)
Definition starts_response (c : call) : bool :=
  match c with
  | send_error _ | send_response _ => true
  | _ => false
  end.

Definition on_database (c : call) : bool :=
  match c with
  | sqlite3_connect | cursor_execute _ _ _ | conn_close => true
  | _ => false
  end.

(** The characters of a string, in order. *)
Definition chars : string -> list ascii := list_ascii_of_string.

(** How many responses a trace starts. *)
Definition answers (t : list call) : nat :=
  List.length (filter starts_response t).

(** The whole key fits SQLite's integers. *)
Definition key_fits (z x y : Z) : bool :=
  fits_int64 z && fits_int64 x && fits_int64 y.

(** The seven ways a request can go. *)
Inductive outcome_of (archive : mbtiles) (path : string) : io unit -> Prop :=
| wrong_shape :
    List.length (segments path) <> 3%nat ->
    outcome_of archive path ([send_error 404], Ok tt)
| not_an_integer :
    List.length (segments path) = 3%nat ->
    outcome_of archive path ([], Err ValueError)
| negative_zoom z x y :
    three_ints path z x y -> z < 0 ->
    outcome_of archive path ([], Err ValueError)
| no_archive z x y :
    three_ints path z x y -> 0 <= z -> archive = None ->
    outcome_of archive path ([], Err FileNotFoundError)
| key_too_large z x y db :
    three_ints path z x y -> 0 <= z -> archive = Some db ->
    key_fits z x (2 ^ z - 1 - y) = false ->
    outcome_of archive path
      ([sqlite3_connect; cursor_execute z x (2 ^ z - 1 - y)],
       Err OverflowError)
| looked_up z x y db :
    three_ints path z x y -> 0 <= z -> archive = Some db ->
    key_fits z x (2 ^ z - 1 - y) = true ->
    outcome_of archive path
      (sqlite3_connect :: cursor_execute z x (2 ^ z - 1 - y) :: conn_close
         :: fst (reply (lookup db z x (2 ^ z - 1 - y))),
       snd (reply (lookup db z x (2 ^ z - 1 - y)))).

(** *** Sample data *)

(** The first bytes of a PNG file stand for a tile image. *)
Definition sample_png : list Byte.byte :=
  [Byte.x89; Byte.x50; Byte.x4e; Byte.x47; Byte.x0d; Byte.x0a; Byte.x1a;
   Byte.x0a].

(** An archive holding only the tile (z=3, x=1, y=2). *)
Definition one_tile : list tile := [mk_tile 3 1 2 (SqlBlob sample_png)].

End TileServer.

(** ** workers/mavlink_worker.py *)

Module MavlinkWorker.

(** A received MAVLink message, as far as [run] looks at it: its type
    name, and the [int32] wire fields of a [GLOBAL_POSITION_INT]. *)
Record message : Type := mk_message {
  get_type : string;
  lat : Z;
  lon : Z;
  relative_alt : Z
}.

(** The two Qt signals of the worker, as emitted values. *)
Inductive signal : Type :=
| gps_update (latitude longitude altitude : float) (ts : string) (valid : bool)
| heartbeat (up : bool).

Definition OFFLINE_TIMEOUT_S : float := 10.0%float.

(** [float(n)] for an [int] that a binary64 holds exactly (every [int32]
    does), and [n / d] for an [int] over a [float]. *)
Definition float_of_int (n : Z) : float :=
  if n <? 0 then PrimFloat.opp (PrimFloat.of_uint63 (Uint63.of_Z (- n)))
  else PrimFloat.of_uint63 (Uint63.of_Z n).

Definition truediv (n : Z) (d : float) : float :=
  PrimFloat.div (float_of_int n) d.

(** The locals of [run] that live across loop iterations. *)
Record locals : Type := mk_locals {
  last_msg_time : float;
  alive : bool
}.

(** Lines 36-50, for a message [msg] that [recv_match] returned, with
    [now] the reading of [time.time()] on line 38 and [ts] the formatted
    [datetime.now()] of line 49. *)
Definition on_message (msg : message) (now : float) (ts : string)
  (st : locals) : list signal * locals :=
  let st := mk_locals now (alive st) in
  if String.eqb (get_type msg) "HEARTBEAT" then
    if negb (alive st)
    then ([heartbeat true], mk_locals (last_msg_time st) true)
    else ([], st)
  else if String.eqb (get_type msg) "GLOBAL_POSITION_INT" then
    let lat := truediv (lat msg) 1e7%float in
    let lon := truediv (lon msg) 1e7%float in
    let alt := truediv (relative_alt msg) 1000.0%float in
    ([gps_update lat lon alt ts true], st)
  else ([], st).

(** The test of line 52, with [now] the reading of [time.time()] there. *)
Definition timed_out (now last : float) : bool :=
  PrimFloat.ltb OFFLINE_TIMEOUT_S (PrimFloat.sub now last).

(** Lines 52-55. *)
Definition check_offline (now : float) (st : locals)
  : list signal * locals :=
  if timed_out now (last_msg_time st) then
    if alive st
    then ([heartbeat false], mk_locals (last_msg_time st) false)
    else ([], st)
  else ([], st).

(** What the outside world supplies during one pass through the loop
    body: the result of [recv_match(blocking=False)], the clock on line
    38, the wall-clock string of line 49, the clock on line 52. *)
Record poll : Type := mk_poll {
  msg : option message;
  t_recv : float;
  ts : string;
  t_check : float
}.

(** Lines 34-50. *)
Definition receive (p : poll) (st : locals) : list signal * locals :=
  match msg p with
  | Some m => on_message m (t_recv p) (ts p) st
  | None => ([], st)
  end.

(** Lines 34-57: one pass through the loop body. *)
Definition iteration (p : poll) (st : locals) : list signal * locals :=
  let (ev1, st1) := receive p st in
  let (ev2, st2) := check_offline (t_check p) st1 in
  (ev1 ++ ev2, st2).

(** The loop of line 33 while [self.running] stays true, over the passes
    the world has supplied so far. *)
Fixpoint poll_loop (ps : list poll) (st : locals) : list signal * locals :=
  match ps with
  | [] => ([], st)
  | p :: ps' =>
      let (ev, st') := iteration p st in
      let (ev', st'') := poll_loop ps' st' in
      (ev ++ ev', st'')
  end.

(** Lines 28-30: the locals on entry to the loop. *)
Definition entry (now : float) : locals := mk_locals now true.

(** [run], lines 26-57.  [handshake] is [None] while [wait_heartbeat()]
    has not returned, and [Some now] once it has, [now] being the clock
    on line 28. *)
Definition run (handshake : option float) (ps : list poll) : list signal :=
  match handshake with
  | None => []
  | Some now => heartbeat true :: fst (poll_loop ps (entry now))
  end.

(** *** The loop next to the thread that calls [stop]

    [self.running] is written by another thread, so the loop is also
    given as a machine that moves from one program point to the next, with
    [stop()] free to run between any two moves. *)
Inductive point : Set :=
| at_while     (* line 33, about to read [self.running] *)
| at_recv      (* line 34, about to poll and handle a message *)
| at_timeout   (* line 52, about to test the timeout *)
| at_sleep     (* line 57 *)
| finished.    (* [run] has returned *)

Record worker : Type := mk_worker {
  pc : point;
  running : bool;
  vars : locals
}.

(** [MavlinkGPSWorker.stop]. *)
Definition stop (w : worker) : worker :=
  mk_worker (pc w) false (vars w).

Definition step (p : poll) (w : worker) : list signal * worker :=
  match pc w with
  | at_while =>
      ([], mk_worker (if running w then at_recv else finished)
                     (running w) (vars w))
  | at_recv =>
      let (ev, st) := receive p (vars w) in
      (ev, mk_worker at_timeout (running w) st)
  | at_timeout =>
      let (ev, st) := check_offline (t_check p) (vars w) in
      (ev, mk_worker at_sleep (running w) st)
  | at_sleep => ([], mk_worker at_while (running w) (vars w))
  | finished => ([], w)
  end.

(** A schedule interleaves moves of the worker thread with calls of
    [stop] from the other thread. *)
Inductive tick : Type :=
| move (p : poll)
| stop_call.

(** What an observer of both threads sees, in order. *)
Inductive observation : Type :=
| emitted (s : signal)
| stop_requested.

Fixpoint exec (sched : list tick) (w : worker)
  : list observation * worker :=
  match sched with
  | [] => ([], w)
  | move p :: sched' =>
      let (ev, w') := step p w in
      let (os, w'') := exec sched' w' in
      (map emitted ev ++ os, w'')
  | stop_call :: sched' =>
      let (os, w') := exec sched' (stop w) in
      (stop_requested :: os, w')
  end.

(** The signals of a run of observations, and the part of it that
    follows the first stop request. *)
Fixpoint signals (os : list observation) : list signal :=
  match os with
  | [] => []
  | emitted s :: os' => s :: signals os'
  | stop_requested :: os' => signals os'
  end.

Fixpoint after_stop (os : list observation) : list observation :=
  match os with
  | [] => []
  | stop_requested :: os' => os'
  | emitted _ :: os' => after_stop os'
  end.

Definition moves (sched : list tick) : nat :=
  List.length (filter (fun t => match t with move _ => true | stop_call => false end) sched).

(** *** Vocabulary for the statements below *)

(** The clock reading [now] is no more than the timeout past [last]. *)
Definition within_timeout (now last : float) : bool :=
  PrimFloat.leb (PrimFloat.sub now last) OFFLINE_TIMEOUT_S.

(** A pass in which [recv_match] returned [None]. *)
Definition silent (p : poll) : Prop := msg p = None.


(** The time of the latest message once pass [p] has polled. *)
Definition latest (last : float) (p : poll) : float :=
  match msg p with
  | Some _ => t_recv p
  | None => last
  end.


(** How many signals can still come from the pass in progress, and how
    many moves are left until the flag has been read and found false. *)
Definition pending (pt : point) : nat :=
  match pt with
  | at_recv => 2
  | at_timeout => 1
  | at_while | at_sleep | finished => 0
  end.

Definition moves_left (pt : point) : nat :=
  match pt with
  | at_recv => 4
  | at_timeout => 3
  | at_sleep => 2
  | at_while => 1
  | finished => 0
  end.

(** *** Vocabulary for the further properties *)

(** The values of the [heartbeat] signals of a run, in order, and its
    [gps_update] signals, in order. *)
Fixpoint ups (l : list signal) : list bool :=
  match l with
  | [] => []
  | heartbeat up :: l' => up :: ups l'
  | gps_update _ _ _ _ _ :: l' => ups l'
  end.

Fixpoint fixes (l : list signal) : list signal :=
  match l with
  | [] => []
  | heartbeat _ :: l' => fixes l'
  | gps_update la lo al ts v :: l' => gps_update la lo al ts v :: fixes l'
  end.

(** Each value is the opposite of the one before it, [b] coming first. *)
Fixpoint alternating (b : bool) (l : list bool) : Prop :=
  match l with
  | [] => True
  | x :: l' => x = negb b /\ alternating x l'
  end.

(** The position fix a pass hands on, if it polled a position message. *)
Definition fix_of (p : poll) : list signal :=
  match msg p with
  | Some m =>
      if String.eqb (get_type m) "GLOBAL_POSITION_INT"
      then [gps_update (truediv (lat m) 1e7%float) (truediv (lon m) 1e7%float)
              (truediv (relative_alt m) 1000.0%float) (ts p) true]
      else []
  | None => []
  end.

(** A part of the loop body keeps signals and flag in step: its
    [heartbeat] signals alternate from the flag it started with, and the flag
    ends as the last of them. *)
Definition steady (st : locals) (r : list signal * locals) : Prop :=
  alternating (alive st) (ups (fst r)) /\
  alive (snd r) = last (ups (fst r)) (alive st).

(** A pass that polls no [HEARTBEAT]. *)
Definition no_heartbeat_message (p : poll) : Prop :=
  forall m, msg p = Some m -> get_type m <> "HEARTBEAT"%string.

Definition is_move (t : tick) : bool :=
  match t with
  | move _ => true
  | stop_call => false
  end.

(** *** The thread from its start

    Before the loop the thread sits in [wait_heartbeat()] (line 26), which
    does not look at [self.running]; [__init__] has set the flag. *)
Inductive thread : Type :=
| in_wait (flag : bool)
| in_loop (w : worker).

Inductive happening : Type :=
| first_heartbeat (now : float)  (* [wait_heartbeat()] returns; line 28 reads [now] *)
| worker_moves (p : poll)
| stop_called.

Definition thread_step (h : happening) (t : thread) : list signal * thread :=
  match t, h with
  | in_wait flag, first_heartbeat now =>
      ([heartbeat true], in_loop (mk_worker at_while flag (entry now)))
  | in_wait flag, worker_moves _ => ([], in_wait flag)
  | in_wait _, stop_called => ([], in_wait false)
  | in_loop w, first_heartbeat _ => ([], in_loop w)
  | in_loop w, worker_moves p => let (ev, w') := step p w in (ev, in_loop w')
  | in_loop w, stop_called => ([], in_loop (stop w))
  end.

Fixpoint thread_run (hs : list happening) (t : thread)
  : list signal * thread :=
  match hs with
  | [] => ([], t)
  | h :: hs' =>
      let (ev, t') := thread_step h t in
      let (ev', t'') := thread_run hs' t' in
      (ev ++ ev', t'')
  end.

(** The thread as [__init__] and [start()] leave it. *)
Definition started : thread := in_wait true.

Definition is_first_heartbeat (h : happening) : bool :=
  match h with
  | first_heartbeat _ => true
  | _ => false
  end.

Definition is_worker_move (h : happening) : bool :=
  match h with
  | worker_moves _ => true
  | _ => false
  end.

(** What the loop sees of a run of happenings. *)
Fixpoint ticks_of (hs : list happening) : list tick :=
  match hs with
  | [] => []
  | first_heartbeat _ :: hs' => ticks_of hs'
  | worker_moves p :: hs' => move p :: ticks_of hs'
  | stop_called :: hs' => stop_call :: ticks_of hs'
  end.

(** [run] has returned. *)
Definition returned (t : thread) : bool :=
  match t with
  | in_loop w => match pc w with finished => true | _ => false end
  | in_wait _ => false
  end.

(** *** Sample data *)

(** A silent pass whose timeout test reads the clock at [now]. *)
Definition quiet (now : float) : poll := mk_poll None 0%float "" now.

(** The position message of the design document's decoding example, and a
    pass that receives it at [now]. *)
Definition sample_position : message :=
  mk_message "GLOBAL_POSITION_INT" 123456789 (-987654321) 1500.

Definition position_at (now : float) : poll :=
  mk_poll (Some sample_position) now "12:00:00" now.

(** The worker about to read the flag on line 33. *)
Definition loop_head (st : locals) : worker := mk_worker at_while true st.

End MavlinkWorker.

(** * Properties of the tile server *)

Section TileServerFacts.
Import Py TileServer.

Lemma shiftl_one (z : Z) : 0 <= z -> Z.shiftl 1 z = 2 ^ z.
Proof. intros Hz. rewrite Z.shiftl_mul_pow2 by assumption. lia. Qed.

Lemma tms_row_nonneg (z y : Z) : 0 <= z -> tms_row z y = Ok (2 ^ z - 1 - y).
Proof.
  intros Hz. unfold tms_row, lshift.
  destruct (Z.ltb_spec z 0) as [Hneg | _]; [lia |].
  now rewrite shiftl_one.
Qed.

Lemma tms_row_negative (z y : Z) : z < 0 -> tms_row z y = Err ValueError.
Proof.
  intros Hz. unfold tms_row, lshift.
  destruct (Z.ltb_spec z 0) as [_ | Hpos]; [reflexivity | lia].
Qed.

(** The two laws of [bind] the handler's unfolding needs. *)
Lemma bind_Ok {A B} (a : A) (k : A -> io B) : bind ([], Ok a) k = k a.
Proof. unfold bind. now destruct (k a). Qed.

Lemma bind_Err {A B} (t : list call) (e : exn) (k : A -> io B) :
  bind (t, Err e) k = (t, Err e).
Proof. reflexivity. Qed.

(** A path that does not split into three segments is answered with a
    404 and nothing else happens. *)
Lemma do_GET_wrong_shape (archive : mbtiles) (path : string) :
  List.length (segments path) <> 3%nat ->
  do_GET archive path = ([send_error 404], Ok tt).
Proof.
  intros Hlen. unfold do_GET.
  destruct (Nat.eqb_spec (List.length (segments path)) 3) as [E | _];
    [contradiction | reflexivity].
Qed.

(** Three segments of which one is not an integer literal: the
    [ValueError] of [int] escapes before anything is sent or looked up. *)
Lemma do_GET_not_an_integer (archive : mbtiles) (path a b c : string) :
  segments path = [a; b; c] ->
  int a = Err ValueError \/ int b = Err ValueError \/ int c = Err ValueError ->
  do_GET archive path = ([], Err ValueError).
Proof.
  intros Hseg Hbad. unfold do_GET. rewrite Hseg.
  cbn [List.length Nat.eqb negb unpack3].
  assert (Hall : forall s, int s = Err ValueError \/ exists v, int s = Ok v).
  { intros s. unfold int.
    destruct (match rstrip_space (lstrip_space s) with
              | String "-"%char rest => option_map Z.opp (unsigned_literal rest)
              | String "+"%char rest => unsigned_literal rest
              | _ => unsigned_literal (rstrip_space (lstrip_space s))
              end); [right; eauto | now left]. }
  destruct (Hall a) as [Ea | [va Ea]]; rewrite Ea; [reflexivity |].
  destruct (Hall b) as [Eb | [vb Eb]]; rewrite Eb; [reflexivity |].
  destruct (Hall c) as [Ec | [vc Ec]]; rewrite Ec; [reflexivity |].
  destruct Hbad as [H | [H | H]]; congruence.
Qed.

(** Three integer segments: what is left of the handler. *)
Lemma do_GET_three_ints (archive : mbtiles) (path : string) (z x y : Z) :
  three_ints path z x y ->
  do_GET archive path =
    (y' <- lift (tms_row z y) ;;
     match archive with
     | None => raise FileNotFoundError
     | Some db =>
         do_call sqlite3_connect ;;;
         row <- execute_fetchone db z x y' ;;
         do_call conn_close ;;;
         match row with
         | None => do_call (send_error 404)
         | Some data =>
             do_call (send_response 200) ;;;
             do_call (send_header "Content-Type" "image/png") ;;;
             do_call end_headers ;;;
             write data
         end
     end).
Proof.
  intros (a & b & c & Hseg & Ha & Hb & Hc).
  unfold do_GET. rewrite Hseg.
  cbn [List.length Nat.eqb negb unpack3]. rewrite Ha, Hb, Hc.
  unfold lift, ret. now rewrite !bind_Ok.
Qed.

Lemma do_GET_lookup (db : list tile) (path : string) (z x y : Z) :
  three_ints path z x y ->
  0 <= z ->
  fits_int64 z = true -> fits_int64 x = true ->
  fits_int64 (2 ^ z - 1 - y) = true ->
  do_GET (Some db) path =
    (sqlite3_connect :: cursor_execute z x (2 ^ z - 1 - y) :: conn_close
       :: fst (reply (lookup db z x (2 ^ z - 1 - y))),
     snd (reply (lookup db z x (2 ^ z - 1 - y)))).
Proof.
  intros H3 Hz Fz Fx Fy.
  rewrite (do_GET_three_ints _ _ _ _ _ H3), tms_row_nonneg by assumption.
  unfold lookup, execute_fetchone. cbn [lift bind do_call app].
  rewrite Fz, Fx, Fy. cbn [andb ret].
  destruct (find (matches z x (2 ^ z - 1 - y)) db) as [t |]; [| reflexivity].
  cbn [option_map reply]. destruct (tile_data t); reflexivity.
Qed.

(** ** Row translation *)

(** C3. For a zoom [z >= 0] and a row [0 <= r < 2^z], the translated row is
    the integer [2^z - 1 - r], it is again a row of that zoom, and
    translating it gives [r] back; row [0] goes to [2^z - 1] and row
    [2^z - 1] goes to [0]. *)
Theorem tms_row_involutive (z r : Z) :
  0 <= z -> 0 <= r < 2 ^ z ->
  exists r',
    tms_row z r = Ok r' /\ r' = 2 ^ z - 1 - r /\ 0 <= r' < 2 ^ z /\
    tms_row z r' = Ok r /\
    tms_row z 0 = Ok (2 ^ z - 1) /\ tms_row z (2 ^ z - 1) = Ok 0.
Proof.
  intros Hz Hr. exists (2 ^ z - 1 - r).
  rewrite !tms_row_nonneg by assumption.
  repeat split; try lia; f_equal; lia.
Qed.

Lemma tms_row_involutive_at_3_5 :
  exists r',
    tms_row 3 5 = Ok r' /\ r' = 2 ^ 3 - 1 - 5 /\ 0 <= r' < 2 ^ 3 /\
    tms_row 3 r' = Ok 5 /\
    tms_row 3 0 = Ok (2 ^ 3 - 1) /\ tms_row 3 (2 ^ 3 - 1) = Ok 0.
Proof. apply (tms_row_involutive 3 5); lia. Defined.

(** The translation is its own inverse on every integer row, not only on
    the rows of the zoom level. *)
Lemma tms_row_twice (z r r' : Z) : tms_row z r = Ok r' -> tms_row z r' = Ok r.
Proof.
  unfold tms_row. destruct (lshift 1 z) as [p | e]; [| discriminate].
  intros [= <-]. f_equal. lia.
Qed.

(** ** Malformed requests *)

(** C1. The request [GET /a/b/c] has three segments, none an integer
    literal.  Whatever the archive, the handler raises [ValueError] on line
    17 before it has sent anything: there is no 404, and no lookup. *)
Theorem do_GET_abc_raises (archive : mbtiles) :
  do_GET archive "/a/b/c" = ([], Err ValueError).
Proof. destruct archive; reflexivity. Qed.

(** Every request is handled, also those after a handler that raised. *)
Lemma run_handles_each (archive : mbtiles) (requests : list string) (i : nat)
  (path : string) :
  nth_error requests i = Some path ->
  nth_error (run archive requests) i = Some (do_GET archive path).
Proof. intros H. unfold run. now apply map_nth_error. Qed.

(** ** Hits and misses *)

(** C4, as stated, fails: with a tile stored at (3, 1, 2), the three-integer
    paths [/-1/0/0] and [/64/0/0] get neither the tile nor a 404: line 20
    raises on the negative shift count, and [2^64 - 1] does not bind as an
    SQLite integer. *)
Lemma do_GET_no_reply_outside_range :
  three_ints "/-1/0/0" (-1) 0 0 /\
  do_GET (Some one_tile) "/-1/0/0" = ([], Err ValueError) /\
  three_ints "/64/0/0" 64 0 0 /\
  do_GET (Some one_tile) "/64/0/0"
  = ([sqlite3_connect; cursor_execute 64 0 (2 ^ 64 - 1)], Err OverflowError).
Proof.
  repeat split; try reflexivity.
  - now exists "-1"%string, "0"%string, "0"%string.
  - now exists "64"%string, "0"%string, "0"%string.
Qed.

(** C4, amended.  With the archive file present, a path of three integers
    [z >= 0], [x], [y] whose key [(z, x, 2^z - 1 - y)] fits SQLite's 64-bit
    integers is looked up at that key: without a row there the answer is a
    404; with a row holding a blob the answer is status 200, the header
    [Content-Type: image/png] and the blob as body. *)
Theorem do_GET_hit_or_miss (db : list tile) (path : string) (z x y : Z) :
  three_ints path z x y ->
  0 <= z ->
  fits_int64 z = true -> fits_int64 x = true ->
  fits_int64 (2 ^ z - 1 - y) = true ->
  (find (matches z x (2 ^ z - 1 - y)) db = None ->
   do_GET (Some db) path
   = ([sqlite3_connect; cursor_execute z x (2 ^ z - 1 - y); conn_close;
       send_error 404], Ok tt)) /\
  (forall t b,
     find (matches z x (2 ^ z - 1 - y)) db = Some t ->
     tile_data t = SqlBlob b ->
     do_GET (Some db) path
     = ([sqlite3_connect; cursor_execute z x (2 ^ z - 1 - y); conn_close;
         send_response 200; send_header "Content-Type" "image/png";
         end_headers; wfile_write b], Ok tt)).
Proof.
  intros H3 Hz Fz Fx Fy.
  rewrite (do_GET_lookup db path z x y H3 Hz Fz Fx Fy). unfold lookup.
  split.
  - intros ->. reflexivity.
  - intros t b -> Hb. cbn [option_map reply]. rewrite Hb. reflexivity.
Qed.

Lemma three_ints_3_1_5 : three_ints "/3/1/5" 3 1 5.
Proof. now exists "3"%string, "1"%string, "5"%string. Qed.

Lemma three_ints_3_1_0 : three_ints "/3/1/0" 3 1 0.
Proof. now exists "3"%string, "1"%string, "0"%string. Qed.

(** The archive holding only (3, 1, 2): the top-origin request (3, 1, 5)
    is a hit, (3, 1, 0) is a miss. *)
Lemma do_GET_hit_or_miss_one_tile :
  do_GET (Some one_tile) "/3/1/5"
  = ([sqlite3_connect; cursor_execute 3 1 2; conn_close;
      send_response 200; send_header "Content-Type" "image/png";
      end_headers; wfile_write sample_png], Ok tt) /\
  do_GET (Some one_tile) "/3/1/0"
  = ([sqlite3_connect; cursor_execute 3 1 7; conn_close; send_error 404],
     Ok tt).
Proof.
  split.
  - apply (proj2 (do_GET_hit_or_miss one_tile "/3/1/5" 3 1 5
                    three_ints_3_1_5 ltac:(lia) eq_refl eq_refl eq_refl)
             (mk_tile 3 1 2 (SqlBlob sample_png)) sample_png eq_refl eq_refl).
  - apply (proj1 (do_GET_hit_or_miss one_tile "/3/1/0" 3 1 0
                    three_ints_3_1_0 ltac:(lia) eq_refl eq_refl eq_refl)
             eq_refl).
Defined.

(** ** The archive file *)

(** C5, as stated, fails: without the archive file the server serves; the
    first request here gets its 404, the second one meets the missing file
    on line 22. *)
Lemma run_without_archive :
  run None ["/1/2"; "/3/1/5"]%string
  = [([send_error 404], Ok tt); ([], Err FileNotFoundError)].
Proof. reflexivity. Qed.

(** C5, amended.  Without the archive file every request is still handled.
    One whose path is not three segments gets the 404; one whose path is
    three integers with a zoom [0 <= z <= shift_limit] raises
    [FileNotFoundError] in its handler, before any database call and with
    nothing sent. *)
Theorem missing_archive_met_per_request (requests : list string) (i : nat)
  (path : string) :
  nth_error requests i = Some path ->
  (List.length (segments path) <> 3%nat ->
   nth_error (run None requests) i = Some ([send_error 404], Ok tt)) /\
  (forall z x y, three_ints path z x y -> 0 <= z <= shift_limit ->
   nth_error (run None requests) i = Some ([], Err FileNotFoundError)).
Proof.
  intros Hi. rewrite (run_handles_each None requests i path Hi). split.
  - intros Hlen. now rewrite do_GET_wrong_shape.
  - intros z x y H3 [Hz _].
    now rewrite (do_GET_three_ints None path z x y H3), tms_row_nonneg.
Qed.

Lemma missing_archive_met_per_request_at_3_1_5 :
  nth_error (run None ["/1/2"; "/3/1/5"]%string) 0
  = Some ([send_error 404], Ok tt) /\
  nth_error (run None ["/1/2"; "/3/1/5"]%string) 1
  = Some ([], Err FileNotFoundError).
Proof.
  split.
  - apply (proj1 (missing_archive_met_per_request
                    ["/1/2"; "/3/1/5"]%string 0 "/1/2" eq_refl)).
    cbn. discriminate.
  - apply (proj2 (missing_archive_met_per_request
                    ["/1/2"; "/3/1/5"]%string 1 "/3/1/5" eq_refl)
             3 1 5 three_ints_3_1_5).
    unfold shift_limit. lia.
Defined.

(** ** Signed segments *)





End TileServerFacts.

(** * Properties of the link monitor *)

Section MavlinkWorkerFacts.
Import MavlinkWorker.

(** ** Comparisons of binary64 values *)

Lemma SFleb_not_SFltb (a b : spec_float) :
  SFleb a b = true -> SFltb b a = false.
Proof.
  unfold SFleb, SFltb.
  destruct a as [sa | sa | | sa ma ea], b as [sb | sb | | sb mb eb]; cbn;
    try discriminate; try reflexivity;
    try (destruct sa; try discriminate; try reflexivity;
         destruct sb; try discriminate; reflexivity);
    try (destruct sb; try discriminate; reflexivity).
  destruct sa, sb; try discriminate; try reflexivity;
    rewrite (Z.compare_antisym ea eb);
    destruct (ea ?= eb); cbn; try discriminate; try reflexivity;
    change (PosDef.Pos.compare_cont Eq) with Pos.compare;
    rewrite (Pos.compare_antisym ma mb);
    destruct (ma ?= mb)%positive; cbn; try discriminate; reflexivity.
Qed.

(** [x <= y] excludes [y < x]. *)
Lemma within_not_timed_out (now last : float) :
  within_timeout now last = true -> timed_out now last = false.
Proof.
  unfold within_timeout, timed_out. rewrite leb_spec, ltb_spec.
  apply SFleb_not_SFltb.
Qed.

(** ** The loop, pass by pass *)

Lemma poll_loop_app (ps qs : list poll) (st : locals) :
  poll_loop (ps ++ qs) st =
  (fst (poll_loop ps st) ++ fst (poll_loop qs (snd (poll_loop ps st))),
   snd (poll_loop qs (snd (poll_loop ps st)))).
Proof.
  revert st. induction ps as [| p ps IH]; intros st; cbn [app poll_loop].
  - cbn [fst snd app]. now destruct (poll_loop qs st).
  - destruct (iteration p st) as [ev st']. rewrite IH.
    destruct (poll_loop ps st') as [ev' st'']. cbn [fst snd].
    now rewrite app_assoc.
Qed.

Lemma silent_iteration (p : poll) (st : locals) :
  silent p -> iteration p st = check_offline (t_check p) st.
Proof.
  unfold silent, iteration, receive. intros ->.
  now destruct (check_offline (t_check p) st).
Qed.

(** Silence changes nothing once offline. *)
Lemma silent_offline_stays (ps : list poll) (T : float) :
  Forall silent ps ->
  poll_loop ps (mk_locals T false) = ([], mk_locals T false).
Proof.
  induction 1 as [| p ps Hp _ IH]; cbn [poll_loop]; [reflexivity |].
  rewrite (silent_iteration p _ Hp). unfold check_offline. cbn [alive last_msg_time].
  destruct (timed_out (t_check p) T); now rewrite IH.
Qed.

(** Silence within the timeout changes nothing while alive. *)
Lemma silent_alive_stays (ps : list poll) (T : float) :
  Forall silent ps ->
  Forall (fun q => within_timeout (t_check q) T = true) ps ->
  poll_loop ps (mk_locals T true) = ([], mk_locals T true).
Proof.
  induction 1 as [| p ps Hp _ IH]; intros Hin; cbn [poll_loop];
    [reflexivity |].
  inversion Hin as [| ? ? Hw Hrest]; subst.
  rewrite (silent_iteration p _ Hp). unfold check_offline. cbn [alive last_msg_time].
  rewrite (within_not_timed_out _ _ Hw). now rewrite IH.
Qed.

(** ** Liveness timeout *)

(** C2. A session is alive with its last message at [T], and every later
    pass is silent.  While the clock at the test is within 10.0 s of [T]
    nothing is emitted and the session stays alive; the first pass [p]
    whose clock exceeds [T] by more than 10.0 s emits [heartbeat(False)]
    and turns the session offline; whatever silent passes follow, that one
    signal is all there is. *)
Theorem offline_once_after_timeout (T : float) (before after : list poll)
  (p : poll) :
  Forall silent (before ++ p :: after) ->
  Forall (fun q => within_timeout (t_check q) T = true) before ->
  timed_out (t_check p) T = true ->
  poll_loop before (mk_locals T true) = ([], mk_locals T true) /\
  poll_loop (before ++ [p]) (mk_locals T true)
  = ([heartbeat false], mk_locals T false) /\
  poll_loop (before ++ p :: after) (mk_locals T true)
  = ([heartbeat false], mk_locals T false).
Proof.
  intros Hs Hin Hout.
  apply Forall_app in Hs as [Hb Hpa].
  inversion Hpa as [| ? ? Hp Ha]; subst.
  pose proof (silent_alive_stays before T Hb Hin) as E.
  assert (Ep : iteration p (mk_locals T true)
               = ([heartbeat false], mk_locals T false)).
  { rewrite (silent_iteration p _ Hp). unfold check_offline.
    cbn [alive last_msg_time]. now rewrite Hout. }
  repeat split.
  - exact E.
  - rewrite poll_loop_app, E. cbn [fst snd app poll_loop]. now rewrite Ep.
  - rewrite poll_loop_app, E. cbn [fst snd app poll_loop]. rewrite Ep.
    now rewrite (silent_offline_stays after T Ha).
Qed.

Lemma offline_once_after_timeout_at_10_05 :
  poll_loop [quiet 5; quiet 10]%float (mk_locals 0%float true)
  = ([], mk_locals 0%float true) /\
  poll_loop ([quiet 5; quiet 10] ++ [quiet 10.05])%float (mk_locals 0%float true)
  = ([heartbeat false], mk_locals 0%float false) /\
  poll_loop ([quiet 5; quiet 10] ++ quiet 10.05 :: [quiet 10.1; quiet 3])%float
    (mk_locals 0%float true)
  = ([heartbeat false], mk_locals 0%float false).
Proof.
  apply (offline_once_after_timeout 0%float [quiet 5; quiet 10]%float
           [quiet 10.1; quiet 3]%float (quiet 10.05%float)).
  - repeat constructor.
  - repeat constructor.
  - reflexivity.
Defined.

(** ** Messages and liveness *)

Lemma on_message_heartbeat (m : message) (now : float) (ts : string)
  (st : locals) :
  get_type m = "HEARTBEAT"%string ->
  on_message m now ts st
  = (if alive st then [] else [heartbeat true], mk_locals now true).
Proof.
  intros E. unfold on_message. rewrite E. cbn [String.eqb Ascii.eqb Bool.eqb alive last_msg_time].
  now destruct (alive st).
Qed.

Lemma on_message_position (m : message) (now : float) (ts : string)
  (st : locals) :
  get_type m = "GLOBAL_POSITION_INT"%string ->
  on_message m now ts st
  = ([gps_update (truediv (lat m) 1e7) (truediv (lon m) 1e7)
        (truediv (relative_alt m) 1000) ts true],
     mk_locals now (alive st)).
Proof. intros E. unfold on_message. now rewrite E. Qed.

Lemma on_message_other (m : message) (now : float) (ts : string)
  (st : locals) :
  get_type m <> "HEARTBEAT"%string ->
  get_type m <> "GLOBAL_POSITION_INT"%string ->
  on_message m now ts st = ([], mk_locals now (alive st)).
Proof.
  intros Hh Hp. unfold on_message.
  apply String.eqb_neq in Hh, Hp. now rewrite Hh, Hp.
Qed.

(** The three cases of a message type. *)
Lemma message_cases (m : message) :
  get_type m = "HEARTBEAT"%string \/
  get_type m = "GLOBAL_POSITION_INT"%string \/
  (get_type m <> "HEARTBEAT"%string /\
   get_type m <> "GLOBAL_POSITION_INT"%string).
Proof.
  destruct (String.eqb_spec (get_type m) "HEARTBEAT"); [now left |].
  destruct (String.eqb_spec (get_type m) "GLOBAL_POSITION_INT");
    [now right; left | now right; right].
Qed.




(** ** Position fixes *)



(** ** Start of a session *)

(** C10. Once [wait_heartbeat()] has returned, [run] emits
    [heartbeat(True)] and enters the loop alive with [last_msg_time] at the
    clock reading of line 28; with no pass made yet that signal is all there
    is.  So in every run a [gps_update] sits at a later position than the
    [heartbeat(True)] that opens the run. *)
Theorem heartbeat_true_comes_first (handshake : option float)
  (ps : list poll) :
  (forall now,
     handshake = Some now ->
     run handshake ps
     = heartbeat true :: fst (poll_loop ps (mk_locals now true)) /\
     run handshake [] = [heartbeat true]) /\
  (forall i la lo al ts v,
     nth_error (run handshake ps) i = Some (gps_update la lo al ts v) ->
     (0 < i)%nat /\ nth_error (run handshake ps) 0 = Some (heartbeat true)).
Proof.
  split.
  - intros now ->. split; reflexivity.
  - intros i la lo al ts v H. destruct handshake as [now |]; cbn [run] in *.
    + destruct i as [| i]; [discriminate H |]. split; [lia | reflexivity].
    + destruct i; discriminate H.
Qed.

Lemma heartbeat_true_comes_first_then_fix :
  (0 < 1)%nat /\
  nth_error (run (Some 0%float) [position_at 4%float]) 0
  = Some (heartbeat true).
Proof.
  apply (proj2 (heartbeat_true_comes_first (Some 0%float) [position_at 4%float])
           1%nat 12.3456789%float (-98.7654321)%float 1.5%float
           "12:00:00"%string true).
  reflexivity.
Defined.

(** ** Stopping *)

Lemma signals_app (os os' : list observation) :
  signals (os ++ os') = signals os ++ signals os'.
Proof.
  induction os as [| [s |] os IH]; cbn [app signals]; [reflexivity | |];
    now rewrite IH.
Qed.

Lemma signals_emitted (ev : list signal) : signals (map emitted ev) = ev.
Proof. induction ev as [| s ev IH]; cbn [map signals]; now rewrite ?IH. Qed.

Lemma receive_at_most_one (p : poll) (st : locals) :
  (List.length (fst (receive p st)) <= 1)%nat.
Proof.
  unfold receive. destruct (msg p) as [m |]; [| cbn; lia].
  destruct (message_cases m) as [E | [E | [E1 E2]]].
  - rewrite (on_message_heartbeat m _ _ _ E). destruct (alive st); cbn; lia.
  - rewrite (on_message_position m _ _ _ E). cbn; lia.
  - rewrite (on_message_other m _ _ _ E1 E2). cbn; lia.
Qed.

Lemma check_offline_at_most_one (now : float) (st : locals) :
  (List.length (fst (check_offline now st)) <= 1)%nat.
Proof.
  unfold check_offline.
  destruct (timed_out now (last_msg_time st)), (alive st); cbn; lia.
Qed.

(** Four moves from the loop head, the flag still set, are one pass. *)
Lemma four_moves_one_pass (p : poll) (st : locals) :
  exec [move p; move p; move p; move p] (mk_worker at_while true st)
  = (map emitted (fst (iteration p st)),
     mk_worker at_while true (snd (iteration p st))).
Proof.
  unfold iteration. cbn [exec step pc running vars].
  destruct (receive p st) as [ev1 st1].
  cbn [exec step pc running vars].
  destruct (check_offline (t_check p) st1) as [ev2 st2].
  cbn [exec step pc running vars map app fst snd].
  now rewrite !app_nil_r, map_app.
Qed.

(** Push the induction hypothesis of [exec_stopped] through one move that
    leaves the worker in state [w0]. *)
Ltac after_move IH w0 :=
  specialize (IH w0 eq_refl);
  destruct (exec _ w0) as [? ?];
  cbn [fst snd map app pc pending moves_left] in *;
  rewrite ?signals_app, ?signals_emitted, ?length_app;
  destruct IH as (? & ? & Hdone);
  split; [lia | split; [assumption |]];
  intros ?; apply Hdone; lia.

(** With the flag cleared the loop is on its way out. *)
Lemma exec_stopped (sched : list tick) (w : worker) :
  running w = false ->
  (List.length (signals (fst (exec sched w))) <= pending (pc w))%nat /\
  running (snd (exec sched w)) = false /\
  ((moves_left (pc w) <= moves sched)%nat ->
   pc (snd (exec sched w)) = finished).
Proof.
  revert w. induction sched as [| [p |] sched IH]; intros [pt r st] Hr;
    cbn [running pc] in Hr; subst r.
  - cbn [exec fst snd signals List.length moves filter running pc].
    split; [lia | split; [reflexivity |]].
    destruct pt; cbn [moves_left]; intros H; solve [lia | reflexivity].
  - cbn [exec]. unfold moves. cbn [filter List.length]. fold (moves sched).
    destruct pt; cbn [step pc running vars].
    + after_move IH (mk_worker finished false st).
    + pose proof (receive_at_most_one p st) as Hle.
      destruct (receive p st) as [ev st1]. cbn [fst] in Hle.
      after_move IH (mk_worker at_timeout false st1).
    + pose proof (check_offline_at_most_one (t_check p) st) as Hle.
      destruct (check_offline (t_check p) st) as [ev st1]. cbn [fst] in Hle.
      after_move IH (mk_worker at_sleep false st1).
    + after_move IH (mk_worker at_while false st).
    + after_move IH (mk_worker finished false st).
  - cbn [exec]. unfold stop. cbn [pc running vars]. unfold moves.
    cbn [filter]. fold (moves sched).
    specialize (IH (mk_worker pt false st) eq_refl).
    destruct (exec sched (mk_worker pt false st)) as [os w'].
    cbn [fst snd signals pc] in *. exact IH.
Qed.

(** C8, as stated, fails: the loop has read the flag on line 33, [stop()]
    runs, and the pass under way then polls a position message and emits
    its [gps_update] after the stop request. *)
Lemma signal_after_stop_request :
  fst (exec [move (position_at 4%float); stop_call; move (position_at 4%float)]
         (loop_head (entry 0%float)))
  = [stop_requested;
     emitted (gps_update 12.3456789%float (-98.7654321)%float 1.5%float
                "12:00:00" true)] /\
  signals (after_stop
             (fst (exec [move (position_at 4%float); stop_call;
                         move (position_at 4%float)]
                     (loop_head (entry 0%float))))) <> [].
Proof. split; [reflexivity | discriminate]. Qed.

(** C8, amended.  After [stop()] the loop starts no further pass.  What is
    emitted after the request comes from the pass under way: at most two
    signals if the flag had just been read, at most one if the message had
    been handled, none if the loop was at its head, asleep or done.  The
    flag stays cleared, and once the worker has made the moves that lead to
    the next read of line 33 (four at most) [run] has returned. *)
Theorem stop_ends_the_loop (sched : list tick) (w : worker) :
  (List.length (signals (after_stop (fst (exec (stop_call :: sched) w))))
   <= pending (pc w))%nat /\
  running (snd (exec (stop_call :: sched) w)) = false /\
  ((moves_left (pc w) <= moves sched)%nat ->
   pc (snd (exec (stop_call :: sched) w)) = finished).
Proof.
  pose proof (exec_stopped sched (stop w) eq_refl) as H.
  cbn [exec]. destruct (exec sched (stop w)) as [os w'].
  unfold stop in H. cbn [fst snd after_stop pc] in *. exact H.
Qed.

Lemma stop_ends_the_loop_mid_pass :
  (List.length
     (signals (after_stop
        (fst (exec (stop_call :: [move (position_at 4%float);
                                   move (quiet 20%float);
                                   move (quiet 20%float);
                                   move (quiet 20%float);
                                   move (position_at 21%float)])
                (mk_worker at_recv true (entry 0%float))))))
   <= 2)%nat /\
  running
    (snd (exec (stop_call :: [move (position_at 4%float);
                               move (quiet 20%float);
                               move (quiet 20%float);
                               move (quiet 20%float);
                               move (position_at 21%float)])
            (mk_worker at_recv true (entry 0%float)))) = false /\
  pc (snd (exec (stop_call :: [move (position_at 4%float);
                                move (quiet 20%float);
                                move (quiet 20%float);
                                move (quiet 20%float);
                                move (position_at 21%float)])
             (mk_worker at_recv true (entry 0%float)))) = finished.
Proof.
  pose proof (stop_ends_the_loop
                [move (position_at 4%float); move (quiet 20%float);
                 move (quiet 20%float); move (quiet 20%float);
                 move (position_at 21%float)]
                (mk_worker at_recv true (entry 0%float))) as (H1 & H2 & H3).
  split; [exact H1 | split; [exact H2 |]].
  apply H3. cbn. lia.
Defined.

End MavlinkWorkerFacts.

(** * Further properties of the tile server *)

Section TileServerMore.
Import Py TileServer.

(** ** Segments *)

Lemma split_length (sep : ascii) (s : string) :
  List.length (split sep s) = S (count_char sep s).
Proof.
  induction s as [| a s IH]; cbn [split count_char]; [reflexivity |].
  destruct (Ascii.eqb a sep); cbn [List.length Nat.add].
  - now rewrite IH.
  - destruct (split sep s) as [| h t]; [discriminate IH | exact IH].
Qed.

(** Every outcome the handler has, by the shape of the path. *)
Lemma int_cases (s : string) : int s = Err ValueError \/ exists v, int s = Ok v.
Proof.
  unfold int.
  destruct (match rstrip_space (lstrip_space s) with
            | String "-"%char rest => option_map Z.opp (unsigned_literal rest)
            | String "+"%char rest => unsigned_literal rest
            | _ => unsigned_literal (rstrip_space (lstrip_space s))
            end); [right; eauto | now left].
Qed.

Lemma path_cases (path : string) :
  List.length (segments path) <> 3%nat \/
  (exists a b c,
     segments path = [a; b; c] /\
     (int a = Err ValueError \/ int b = Err ValueError \/
      int c = Err ValueError)) \/
  (exists z x y, three_ints path z x y).
Proof.
  destruct (segments path) as [| a [| b [| c [| d l]]]] eqn:E;
    try (left; cbn; lia).
  right.
  destruct (int_cases a) as [Ha | [z Ha]]; [left; exists a, b, c; auto |].
  destruct (int_cases b) as [Hb | [x Hb]]; [left; exists a, b, c; auto |].
  destruct (int_cases c) as [Hc | [y Hc]]; [left; exists a, b, c; auto |].
  right. exists z, x, y, a, b, c. auto.
Qed.

Lemma do_GET_overflow (db : list tile) (path : string) (z x y : Z) :
  three_ints path z x y ->
  0 <= z ->
  key_fits z x (2 ^ z - 1 - y) = false ->
  do_GET (Some db) path
  = ([sqlite3_connect; cursor_execute z x (2 ^ z - 1 - y)], Err OverflowError).
Proof.
  intros H3 Hz Hk. unfold key_fits in Hk.
  rewrite (do_GET_three_ints _ _ _ _ _ H3), tms_row_nonneg by assumption.
  unfold execute_fetchone. cbn [lift bind do_call app]. now rewrite Hk.
Qed.

Lemma do_GET_in_range (db : list tile) (path : string) (z x y : Z) :
  three_ints path z x y ->
  0 <= z ->
  key_fits z x (2 ^ z - 1 - y) = true ->
  do_GET (Some db) path =
    (sqlite3_connect :: cursor_execute z x (2 ^ z - 1 - y) :: conn_close
       :: fst (reply (lookup db z x (2 ^ z - 1 - y))),
     snd (reply (lookup db z x (2 ^ z - 1 - y)))).
Proof.
  intros H3 Hz Hk. unfold key_fits in Hk.
  apply andb_prop in Hk as [Hk Fy]. apply andb_prop in Hk as [Fz Fx].
  now apply do_GET_lookup.
Qed.

Lemma do_GET_outcome (archive : mbtiles) (path : string) :
  outcome_of archive path (do_GET archive path).
Proof.
  destruct (path_cases path) as [Hlen | [(a & b & c & Hseg & Hbad) | (z & x & y & H3)]].
  - rewrite do_GET_wrong_shape by assumption. now constructor.
  - rewrite (do_GET_not_an_integer archive path a b c Hseg Hbad).
    apply not_an_integer. now rewrite Hseg.
  - destruct (Z.lt_ge_cases z 0) as [Hneg | Hz].
    + rewrite (do_GET_three_ints _ _ _ _ _ H3), tms_row_negative by assumption.
      now apply (negative_zoom archive path z x y).
    + destruct archive as [db |].
      * destruct (key_fits z x (2 ^ z - 1 - y)) eqn:Hk.
        -- rewrite (do_GET_in_range db path z x y H3 Hz Hk).
           now apply (looked_up (Some db) path z x y db).
        -- rewrite (do_GET_overflow db path z x y H3 Hz Hk).
           now apply (key_too_large (Some db) path z x y db).
      * rewrite (do_GET_three_ints _ _ _ _ _ H3), tms_row_nonneg by assumption.
        now apply (no_archive None path z x y).
Qed.

(** ** One answer per request *)

(** X1. A handler that returns has started exactly one response; a handler
    that raises has sent no error response and written no body. *)
Theorem do_GET_answers_once (archive : mbtiles) (path : string) :
  (forall u, snd (do_GET archive path) = Ok u ->
             answers (fst (do_GET archive path)) = 1%nat) /\
  (forall e, snd (do_GET archive path) = Err e ->
             forall code body,
               ~ In (send_error code) (fst (do_GET archive path)) /\
               ~ In (wfile_write body) (fst (do_GET archive path))).
Proof.
  pose proof (do_GET_outcome archive path) as H.
  remember (do_GET archive path) as r eqn:Er. clear Er.
  destruct H as [Hlen | Hlen | z x y H3 Hz | z x y H3 Hz Ha
                | z x y db H3 Hz Ha Hk | z x y db H3 Hz Ha Hk];
    cbn [fst snd].
  1-5: split; [intros u E; try discriminate E; reflexivity
              | intros e E; try discriminate E; intros code body;
                split; intros Hin; cbn in Hin; intuition discriminate].
  destruct (lookup db z x (2 ^ z - 1 - y)) as [[| n | f | t | b] |];
    cbn [reply fst snd];
    (split; [intros u E; try discriminate E; reflexivity
            | intros e E; try discriminate E; intros code body;
              split; intros Hin; cbn in Hin; intuition discriminate]).
Qed.

Lemma do_GET_answers_once_hit_and_abc :
  answers (fst (do_GET (Some one_tile) "/3/1/5")) = 1%nat /\
  ~ In (send_error 404) (fst (do_GET None "/a/b/c")) /\
  ~ In (wfile_write sample_png) (fst (do_GET None "/a/b/c")).
Proof.
  split.
  - apply (proj1 (do_GET_answers_once (Some one_tile) "/3/1/5") tt).
    reflexivity.
  - apply (proj2 (do_GET_answers_once None "/a/b/c") ValueError).
    reflexivity.
Defined.

(** ** Keys SQLite cannot hold *)

(** X2. With the archive present and a zoom [0 <= z <= shift_limit], a
    key of which one component is outside the signed 64-bit range makes
    [execute] raise [OverflowError]: the connection has been opened and is
    never closed, and nothing is sent. *)
Theorem do_GET_key_too_large (db : list tile) (path : string) (z x y : Z) :
  three_ints path z x y ->
  0 <= z <= shift_limit ->
  key_fits z x (2 ^ z - 1 - y) = false ->
  do_GET (Some db) path
  = ([sqlite3_connect; cursor_execute z x (2 ^ z - 1 - y)], Err OverflowError)
  /\ ~ In conn_close (fst (do_GET (Some db) path)).
Proof.
  intros H3 [Hz _] Hk. rewrite (do_GET_overflow db path z x y H3 Hz Hk).
  split; [reflexivity |]. cbn. intuition discriminate.
Qed.

Lemma three_ints_large_column :
  three_ints "/0/9223372036854775808/0" 0 (2 ^ 63) 0.
Proof.
  now exists "0"%string, "9223372036854775808"%string, "0"%string.
Qed.

Lemma do_GET_key_too_large_column :
  do_GET (Some one_tile) "/0/9223372036854775808/0"
  = ([sqlite3_connect; cursor_execute 0 (2 ^ 63) (2 ^ 0 - 1 - 0)],
     Err OverflowError)
  /\ ~ In conn_close (fst (do_GET (Some one_tile) "/0/9223372036854775808/0")).
Proof.
  apply (do_GET_key_too_large one_tile "/0/9223372036854775808/0" 0 (2 ^ 63) 0
           three_ints_large_column); [unfold shift_limit; lia | reflexivity].
Defined.

(** ** Rows that hold no blob *)

(** X3. When the row found holds anything but a blob, the handler has
    already sent status 200 and the headers when [wfile.write] raises
    [TypeError]; no body follows. *)
Theorem do_GET_not_a_blob (db : list tile) (path : string) (z x y : Z)
  (t : tile) :
  three_ints path z x y ->
  0 <= z ->
  key_fits z x (2 ^ z - 1 - y) = true ->
  find (matches z x (2 ^ z - 1 - y)) db = Some t ->
  (forall b, tile_data t <> SqlBlob b) ->
  do_GET (Some db) path
  = ([sqlite3_connect; cursor_execute z x (2 ^ z - 1 - y); conn_close;
      send_response 200; send_header "Content-Type" "image/png";
      end_headers], Err TypeError).
Proof.
  intros H3 Hz Hk Hf Hb.
  rewrite (do_GET_in_range db path z x y H3 Hz Hk). unfold lookup.
  rewrite Hf. cbn [option_map reply].
  destruct (tile_data t) as [| n | f | s | b]; try reflexivity.
  now destruct (Hb b).
Qed.

Lemma do_GET_not_a_blob_null :
  do_GET (Some [mk_tile 3 1 2 SqlNull]) "/3/1/5"
  = ([sqlite3_connect; cursor_execute 3 1 (2 ^ 3 - 1 - 5); conn_close;
      send_response 200; send_header "Content-Type" "image/png";
      end_headers], Err TypeError).
Proof.
  apply (do_GET_not_a_blob [mk_tile 3 1 2 SqlNull] "/3/1/5" 3 1 5
           (mk_tile 3 1 2 SqlNull) three_ints_3_1_5);
    [lia | reflexivity | reflexivity | discriminate].
Defined.

(** ** What the answer depends on *)

(** X4. The answer depends on the archive's rows only through the row
    fetched for the translated key: two archives that agree there are
    answered alike, for every path. *)
Theorem do_GET_key_only (db1 db2 : list tile) (path : string) :
  (forall z x y, three_ints path z x y -> 0 <= z ->
     lookup db1 z x (2 ^ z - 1 - y) = lookup db2 z x (2 ^ z - 1 - y)) ->
  do_GET (Some db1) path = do_GET (Some db2) path.
Proof.
  intros Hsame.
  destruct (path_cases path)
    as [Hlen | [(a & b & c & Hseg & Hbad) | (z & x & y & H3)]].
  - now rewrite !do_GET_wrong_shape.
  - now rewrite !(do_GET_not_an_integer _ path a b c Hseg Hbad).
  - destruct (Z.lt_ge_cases z 0) as [Hneg | Hz].
    + now rewrite !(do_GET_three_ints _ _ _ _ _ H3), tms_row_negative.
    + destruct (key_fits z x (2 ^ z - 1 - y)) eqn:Hk.
      * rewrite !(do_GET_in_range _ path z x y H3 Hz Hk).
        now rewrite (Hsame z x y H3 Hz).
      * now rewrite !(do_GET_overflow _ path z x y H3 Hz Hk).
Qed.

Lemma do_GET_key_only_other_rows :
  do_GET (Some (mk_tile 3 1 9 SqlNull :: one_tile)) "/3/1/5"
  = do_GET (Some one_tile) "/3/1/5".
Proof.
  apply (do_GET_key_only (mk_tile 3 1 9 SqlNull :: one_tile) one_tile "/3/1/5").
  intros z x y (a & b & c & Hseg & Ha & Hb & Hc) _.
  injection Hseg as <- <- <-.
  injection Ha as <-. injection Hb as <-. injection Hc as <-.
  reflexivity.
Defined.

Lemma find_first (P : tile -> bool) (front back : list tile) (t : tile) :
  Forall (fun r => P r = false) front -> P t = true ->
  find P (front ++ t :: back) = Some t.
Proof.
  induction 1 as [| r front Hr _ IH]; intros Ht; cbn [app find].
  - now rewrite Ht.
  - rewrite Hr. now apply IH.
Qed.

(** X5. A tile stored under the key the row translation gives is what the
    request gets back: with rows in front of it that do not match and any
    rows behind it (also further rows under the same key), the answer is
    status 200 with that tile's bytes. *)
Theorem stored_tile_is_served (front back : list tile) (path : string)
  (z x y : Z) (b : list Byte.byte) :
  three_ints path z x y ->
  0 <= z ->
  key_fits z x (2 ^ z - 1 - y) = true ->
  Forall (fun r => matches z x (2 ^ z - 1 - y) r = false) front ->
  do_GET (Some (front ++ mk_tile z x (2 ^ z - 1 - y) (SqlBlob b) :: back)) path
  = ([sqlite3_connect; cursor_execute z x (2 ^ z - 1 - y); conn_close;
      send_response 200; send_header "Content-Type" "image/png";
      end_headers; wfile_write b], Ok tt).
Proof.
  intros H3 Hz Hk Hfront.
  rewrite (do_GET_in_range _ path z x y H3 Hz Hk). unfold lookup.
  rewrite (find_first _ front back _ Hfront); [reflexivity |].
  unfold matches. cbn [zoom_level tile_column tile_row].
  now rewrite !Z.eqb_refl.
Qed.

Lemma stored_tile_is_served_between :
  do_GET (Some ([mk_tile 3 1 7 SqlNull; mk_tile 2 1 2 SqlNull]
                  ++ mk_tile 3 1 (2 ^ 3 - 1 - 5) (SqlBlob sample_png)
                  :: [mk_tile 3 1 2 (SqlText "late")])) "/3/1/5"
  = ([sqlite3_connect; cursor_execute 3 1 (2 ^ 3 - 1 - 5); conn_close;
      send_response 200; send_header "Content-Type" "image/png";
      end_headers; wfile_write sample_png], Ok tt).
Proof.
  apply (stored_tile_is_served [mk_tile 3 1 7 SqlNull; mk_tile 2 1 2 SqlNull]
           [mk_tile 3 1 2 (SqlText "late")] "/3/1/5" 3 1 5 sample_png
           three_ints_3_1_5); [lia | reflexivity | repeat constructor].
Defined.

(** X6. The archive is looked at only for a path of three integers with
    a zoom [z >= 0]: on every other path the handler does the same with
    and without the file, whatever it holds. *)
Theorem do_GET_without_looking (archive1 archive2 : mbtiles) (path : string) :
  (forall z x y, three_ints path z x y -> z < 0) ->
  do_GET archive1 path = do_GET archive2 path.
Proof.
  intros Hneg.
  destruct (path_cases path)
    as [Hlen | [(a & b & c & Hseg & Hbad) | (z & x & y & H3)]].
  - now rewrite !do_GET_wrong_shape.
  - now rewrite !(do_GET_not_an_integer _ path a b c Hseg Hbad).
  - pose proof (Hneg z x y H3) as Hz.
    now rewrite !(do_GET_three_ints _ _ _ _ _ H3), tms_row_negative.
Qed.

Lemma do_GET_without_looking_two_segments :
  do_GET None "/3/1" = do_GET (Some one_tile) "/3/1".
Proof.
  apply (do_GET_without_looking None (Some one_tile) "/3/1").
  intros z x y (a & b & c & Hseg & _). discriminate Hseg.
Defined.

(** ** Order of rows *)

(** X7. The row translation reverses the order of rows at a zoom level,
    so two different rows never translate to the same stored row. *)
Theorem tms_row_reverses_order (z r1 r2 s1 s2 : Z) :
  tms_row z r1 = Ok s1 -> tms_row z r2 = Ok s2 ->
  (r1 < r2 <-> s2 < s1) /\ (s1 = s2 -> r1 = r2).
Proof.
  unfold tms_row. destruct (lshift 1 z) as [p | e]; [| discriminate].
  intros [= <-] [= <-]. lia.
Qed.

Lemma tms_row_reverses_order_at_3 :
  (1 < 6 <-> 1 < 6) /\ (6 = 1 -> 1 = 6).
Proof. apply (tms_row_reverses_order 3 1 6 6 1); reflexivity. Defined.

(** ** The shape of a path *)

(** X8. The handler answers with the bare 404 of line 14 exactly when the
    path, once the slashes at its ends are stripped, does not hold exactly
    two slashes. *)
Theorem wrong_shape_iff_not_two_slashes (archive : mbtiles) (path : string) :
  do_GET archive path = ([send_error 404], Ok tt) <->
  count_char "/" (strip "/" path) <> 2%nat.
Proof.
  assert (Hlen : List.length (segments path)
                 = S (count_char "/" (strip "/" path)))
    by apply split_length.
  split.
  - intros E. pose proof (do_GET_outcome archive path) as H. rewrite E in H.
    inversion H as [Hn | | | | |]; lia.
  - intros Hc. apply do_GET_wrong_shape. lia.
Qed.

Lemma rstrip_app_sep (c : ascii) (s : string) :
  rstrip c (s ++ String c EmptyString) = rstrip c s.
Proof.
  induction s as [| a s IH]; cbn [String.append rstrip].
  - now rewrite Ascii.eqb_refl.
  - now rewrite IH.
Qed.

Lemma lstrip_app_sep (c : ascii) (s : string) :
  lstrip c (s ++ String c EmptyString) = (lstrip c s ++ String c EmptyString)%string
  \/ (lstrip c s = EmptyString /\
      lstrip c (s ++ String c EmptyString) = EmptyString).
Proof.
  induction s as [| a s IH]; cbn [String.append lstrip].
  - right. now rewrite Ascii.eqb_refl.
  - destruct (Ascii.eqb a c); [exact IH | now left].
Qed.

Lemma strip_app_sep (c : ascii) (s : string) :
  strip c (s ++ String c EmptyString) = strip c s.
Proof.
  unfold strip. destruct (lstrip_app_sep c s) as [E | [E1 E2]].
  - rewrite E. apply rstrip_app_sep.
  - now rewrite E1, E2.
Qed.

Lemma do_GET_by_segments (archive : mbtiles) (p q : string) :
  segments p = segments q -> do_GET archive p = do_GET archive q.
Proof. intros E. unfold do_GET. now rewrite E. Qed.

(** X9. One more slash in front of a path, or one more at its end, changes
    nothing in what the handler does. *)
Theorem do_GET_ignores_outer_slashes (archive : mbtiles) (path : string) :
  do_GET archive (String "/" path) = do_GET archive path /\
  do_GET archive (path ++ "/") = do_GET archive path.
Proof.
  split; apply do_GET_by_segments; unfold segments.
  - reflexivity.
  - now rewrite strip_app_sep.
Qed.

(** ** Characters no integer literal holds *)

Lemma digits_chars (s : string) :
  forall acc n u r, digits acc n u s = Some r ->
  forall c, In c (chars s) -> isdigit c = true \/ c = "_"%char.
Proof.
  induction s as [| a s IH]; intros acc n u r H c Hin; [destruct Hin |].
  cbn [digits] in H. destruct Hin as [<- | Hin].
  - destruct (isdigit a); [now left |].
    destruct (Ascii.eqb_spec a "_"%char); [now right | discriminate H].
  - destruct (isdigit a).
    + exact (IH _ _ _ _ H c Hin).
    + destruct (Ascii.eqb a "_"%char); [| discriminate H].
      destruct u; [discriminate H |]. exact (IH _ _ _ _ H c Hin).
Qed.

Lemma unsigned_literal_chars (s : string) (v : Z) :
  unsigned_literal s = Some v ->
  forall c, In c (chars s) -> isdigit c = true \/ c = "_"%char.
Proof.
  unfold unsigned_literal. destruct s as [| a s]; [discriminate |].
  destruct (isdigit a); [| discriminate].
  destruct (digits 0 0 false (String a s)) as [[w n] |] eqn:E; [| discriminate].
  intros _. exact (digits_chars _ _ _ _ _ E).
Qed.

Lemma lstrip_space_chars (s : string) (c : ascii) :
  In c (chars s) -> isspace c = true \/ In c (chars (lstrip_space s)).
Proof.
  induction s as [| a s IH]; intros Hin; [destruct Hin |].
  cbn [lstrip_space]. destruct (isspace a) eqn:Ea; [| now right].
  destruct Hin as [<- | Hin]; [now left | now apply IH].
Qed.

Lemma rstrip_space_chars (s : string) (c : ascii) :
  In c (chars s) -> isspace c = true \/ In c (chars (rstrip_space s)).
Proof.
  induction s as [| a s IH]; intros Hin; [destruct Hin |].
  cbn [rstrip_space]. destruct Hin as [-> | Hin].
  - destruct (rstrip_space s); [| right; now left].
    destruct (isspace c) eqn:Ec; [now left | right; now left].
  - destruct (IH Hin) as [Hs | Hr]; [now left |].
    destruct (rstrip_space s); [destruct Hr | right; now right].
Qed.

(** [int] reads its argument as blank, sign, digits. *)
Lemma int_by_sign (s : string) :
  int s =
  match
    match rstrip_space (lstrip_space s) with
    | EmptyString => None
    | String a rest =>
        if Ascii.eqb a "-"%char then option_map Z.opp (unsigned_literal rest)
        else if Ascii.eqb a "+"%char then unsigned_literal rest
        else unsigned_literal (String a rest)
    end
  with
  | Some v => Ok v
  | None => Err ValueError
  end.
Proof.
  unfold int. destruct (rstrip_space (lstrip_space s)) as [| a rest];
    [reflexivity |].
  destruct a as [[] [] [] [] [] [] [] []]; reflexivity.
Qed.

Lemma int_Ok_chars (s : string) (v : Z) :
  int s = Ok v -> forall c, In c (chars s) -> int_char c = true.
Proof.
  rewrite int_by_sign. intros H c Hin. unfold int_char.
  destruct (lstrip_space_chars s c Hin) as [Hs | Hin1];
    [rewrite Hs; now rewrite orb_true_r |].
  destruct (rstrip_space_chars _ c Hin1) as [Hs | Hin2];
    [rewrite Hs; now rewrite orb_true_r |].
  assert (Hlit : forall t w, unsigned_literal t = Some w -> In c (chars t) ->
                 (isdigit c || isspace c || Ascii.eqb c "_"%char)%bool = true).
  { intros t w Ht Hc.
    destruct (unsigned_literal_chars t w Ht c Hc) as [Hd | ->];
      [now rewrite Hd | now rewrite orb_true_r]. }
  destruct (rstrip_space (lstrip_space s)) as [| a rest]; [destruct Hin2 |].
  destruct (Ascii.eqb_spec a "-"%char) as [-> | Hm].
  - destruct (unsigned_literal rest) as [w |] eqn:Er; [| discriminate H].
    destruct Hin2 as [<- | Hin2]; [now rewrite !orb_true_r |].
    now rewrite (Hlit rest w Er Hin2).
  - destruct (Ascii.eqb_spec a "+"%char) as [-> | Hp].
    + destruct (unsigned_literal rest) as [w |] eqn:Er; [| discriminate H].
      destruct Hin2 as [<- | Hin2]; [now rewrite !orb_true_r |].
      now rewrite (Hlit rest w Er Hin2).
    + destruct (unsigned_literal (String a rest)) as [w |] eqn:Er;
        [| discriminate H].
      now rewrite (Hlit _ w Er Hin2).
Qed.

Lemma lstrip_keeps (sep c : ascii) (s : string) :
  In c (chars s) -> c <> sep -> In c (chars (lstrip sep s)).
Proof.
  induction s as [| a s IH]; intros Hin Hc; [destruct Hin |].
  cbn [lstrip]. destruct (Ascii.eqb_spec a sep) as [-> | _]; [| exact Hin].
  destruct Hin as [<- | Hin]; [now destruct Hc | now apply IH].
Qed.

Lemma rstrip_keeps (sep c : ascii) (s : string) :
  In c (chars s) -> c <> sep -> In c (chars (rstrip sep s)).
Proof.
  induction s as [| a s IH]; intros Hin Hc; [destruct Hin |].
  cbn [rstrip]. destruct Hin as [-> | Hin].
  - destruct (rstrip sep s); [| now left].
    destruct (Ascii.eqb_spec c sep); [contradiction | now left].
  - specialize (IH Hin Hc).
    destruct (rstrip sep s); [destruct IH | now right].
Qed.

Lemma split_keeps (sep c : ascii) (s : string) :
  In c (chars s) -> c <> sep ->
  exists seg, In seg (split sep s) /\ In c (chars seg).
Proof.
  induction s as [| a s IH]; intros Hin Hc; [destruct Hin |].
  cbn [split]. destruct Hin as [-> | Hin].
  - destruct (Ascii.eqb_spec c sep); [contradiction |].
    destruct (split sep s) as [| h t].
    + exists (String c EmptyString). split; now left.
    + exists (String c h). split; now left.
  - destruct (IH Hin Hc) as (seg & Hseg & Hcs).
    destruct (Ascii.eqb a sep).
    + exists seg. split; [now right | assumption].
    + destruct (split sep s) as [| h t]; [destruct Hseg |].
      destruct Hseg as [<- | Hseg].
      * exists (String a h). split; [now left | now right].
      * exists seg. split; [now right | assumption].
Qed.

(** X10. A path that holds a character other than a slash, a digit, an
    underscore, a sign or white space (the ["?"] of a query string, say)
    never reaches the database: it gets the bare 404, or the handler
    raises [ValueError] with nothing sent. *)
Theorem foreign_character_stops_request (archive : mbtiles) (path : string)
  (c : ascii) :
  In c (chars path) -> c <> "/"%char -> int_char c = false ->
  do_GET archive path = ([send_error 404], Ok tt) \/
  do_GET archive path = ([], Err ValueError).
Proof.
  intros Hin Hc Hf.
  destruct (path_cases path)
    as [Hlen | [(a & b & d & Hseg & Hbad) | (z & x & y & H3)]].
  - left. now apply do_GET_wrong_shape.
  - right. exact (do_GET_not_an_integer archive path a b d Hseg Hbad).
  - exfalso. destruct H3 as (a & b & d & Hseg & Ha & Hb & Hd).
    assert (Hs : In c (chars (strip "/" path)))
      by (unfold strip; apply rstrip_keeps;
          [apply lstrip_keeps |]; assumption).
    destruct (split_keeps "/" c _ Hs Hc) as (seg & Hseg' & Hcs).
    fold (segments path) in Hseg'. rewrite Hseg in Hseg'.
    assert (Hok : exists v, int seg = Ok v).
    { destruct Hseg' as [<- | [<- | [<- | []]]]; eauto. }
    destruct Hok as [v Hv].
    rewrite (int_Ok_chars seg v Hv c Hcs) in Hf. discriminate Hf.
Qed.

Lemma foreign_character_stops_request_query :
  do_GET (Some one_tile) "/3/1/5?v=2" = ([send_error 404], Ok tt) \/
  do_GET (Some one_tile) "/3/1/5?v=2" = ([], Err ValueError).
Proof.
  apply (foreign_character_stops_request (Some one_tile) "/3/1/5?v=2" "?"%char).
  - cbn. tauto.
  - discriminate.
  - reflexivity.
Defined.

(** ** Spellings of the same integers *)

(** X18. The handler sees a path only through the three integers its
    segments spell: two paths that spell the same integers (with leading
    zeros, a plus sign, underscores between digits, blanks around a
    segment, or more slashes at the ends) are handled alike. *)
Theorem do_GET_by_values (archive : mbtiles) (p q : string) (z x y : Z) :
  three_ints p z x y -> three_ints q z x y ->
  do_GET archive p = do_GET archive q.
Proof.
  intros Hp Hq.
  now rewrite (do_GET_three_ints archive p z x y Hp),
              (do_GET_three_ints archive q z x y Hq).
Qed.

Lemma three_ints_other_spelling : three_ints "//+3/01/0_5/" 3 1 5.
Proof. now exists "+3"%string, "01"%string, "0_5"%string. Qed.

Lemma do_GET_by_values_other_spelling :
  do_GET (Some one_tile) "//+3/01/0_5/" = do_GET (Some one_tile) "/3/1/5".
Proof.
  apply (do_GET_by_values (Some one_tile) "//+3/01/0_5/" "/3/1/5" 3 1 5
           three_ints_other_spelling three_ints_3_1_5).
Defined.

End TileServerMore.

(** * Further properties of the link monitor *)

Section MavlinkWorkerMore.
Import MavlinkWorker.

(** ** Signals of one pass *)

Lemma ups_app (l l' : list signal) : ups (l ++ l') = ups l ++ ups l'.
Proof.
  induction l as [| [la lo al t v | up] l IH]; cbn [app ups];
    now rewrite ?IH.
Qed.

Lemma fixes_app (l l' : list signal) : fixes (l ++ l') = fixes l ++ fixes l'.
Proof.
  induction l as [| [la lo al t v | up] l IH]; cbn [app fixes];
    now rewrite ?IH.
Qed.

Lemma last_cons_any (l : list bool) (x d d' : bool) :
  last (x :: l) d = last (x :: l) d'.
Proof.
  revert x. induction l as [| y l IH]; intros x; [reflexivity |].
  change (last (y :: l) d = last (y :: l) d'). apply IH.
Qed.

Lemma last_app_default (l l' : list bool) (d : bool) :
  last (l ++ l') d = last l' (last l d).
Proof.
  destruct l' as [| b l']; [now rewrite app_nil_r |].
  induction l as [| x l IH]; [reflexivity |].
  rewrite (last_cons_any l' b (last (x :: l) d) d).
  rewrite (last_cons_any l' b (last l d) d) in IH.
  rewrite <- IH. cbn [app]. destruct l; reflexivity.
Qed.

Lemma alternating_app (b : bool) (l l' : list bool) :
  alternating b l -> alternating (last l b) l' -> alternating b (l ++ l').
Proof.
  revert b. induction l as [| x l IH]; intros b Hl Hl'; [exact Hl' |].
  destruct Hl as [Hx Hl]. cbn [app alternating]. split; [exact Hx |].
  apply IH; [exact Hl |].
  destruct l as [| y l]; [exact Hl' |].
  rewrite (last_cons_any l y x b). exact Hl'.
Qed.

Lemma steady_then (st : locals) (ev1 ev2 : list signal) (st1 st2 : locals) :
  steady st (ev1, st1) -> steady st1 (ev2, st2) ->
  steady st (ev1 ++ ev2, st2).
Proof.
  unfold steady. cbn [fst snd]. intros [A1 L1] [A2 L2].
  rewrite ups_app, last_app_default, <- L1. split; [| exact L2].
  apply alternating_app; [exact A1 | now rewrite <- L1].
Qed.

Lemma on_message_steady (m : message) (now : float) (ts : string)
  (st : locals) : steady st (on_message m now ts st).
Proof.
  unfold steady.
  destruct (message_cases m) as [E | [E | [E1 E2]]].
  - rewrite (on_message_heartbeat m now ts st E).
    destruct (alive st); cbn; auto.
  - rewrite (on_message_position m now ts st E). cbn; auto.
  - rewrite (on_message_other m now ts st E1 E2). cbn; auto.
Qed.

Lemma check_offline_steady (now : float) (st : locals) :
  steady st (check_offline now st).
Proof.
  unfold steady, check_offline.
  destruct (timed_out now (last_msg_time st)); [| cbn; auto].
  destruct (alive st) eqn:E; cbn; rewrite ?E; auto.
Qed.

Lemma iteration_steady (p : poll) (st : locals) : steady st (iteration p st).
Proof.
  unfold iteration.
  assert (H1 : steady st (receive p st)).
  { unfold receive. destruct (msg p) as [m |];
      [apply on_message_steady | unfold steady; cbn; auto]. }
  destruct (receive p st) as [ev1 st1].
  pose proof (check_offline_steady (t_check p) st1) as H2.
  destruct (check_offline (t_check p) st1) as [ev2 st2].
  exact (steady_then st ev1 ev2 st1 st2 H1 H2).
Qed.

(** ** Liveness signals *)

(** X11. The [heartbeat] signals of the loop alternate: each one carries
    the opposite of the liveness before it, so the same value is never
    signalled twice in a row, and [alive] ends as the last value signalled
    (or as it began, when nothing was signalled). *)
Theorem heartbeat_signals_alternate (ps : list poll) (st : locals) :
  alternating (alive st) (ups (fst (poll_loop ps st))) /\
  alive (snd (poll_loop ps st))
  = last (ups (fst (poll_loop ps st))) (alive st).
Proof.
  change (steady st (poll_loop ps st)).
  revert st. induction ps as [| p ps IH]; intros st; cbn [poll_loop].
  - unfold steady. cbn. auto.
  - pose proof (iteration_steady p st) as H1.
    destruct (iteration p st) as [ev st'].
    specialize (IH st'). destruct (poll_loop ps st') as [ev' st''].
    exact (steady_then st ev ev' st' st'' H1 IH).
Qed.

Lemma heartbeat_signals_alternate_down_up :
  alternating true
    (ups (fst (poll_loop
                 [quiet 11%float;
                  mk_poll (Some (mk_message "HEARTBEAT" 0 0 0)) 12%float
                    "12:00:00" 12%float;
                  quiet 30%float]
                 (entry 0%float)))) /\
  ups (fst (poll_loop
              [quiet 11%float;
               mk_poll (Some (mk_message "HEARTBEAT" 0 0 0)) 12%float
                 "12:00:00" 12%float;
               quiet 30%float]
              (entry 0%float))) = [false; true; false].
Proof.
  split; [| reflexivity].
  apply (heartbeat_signals_alternate
           [quiet 11%float;
            mk_poll (Some (mk_message "HEARTBEAT" 0 0 0)) 12%float
              "12:00:00" 12%float;
            quiet 30%float] (entry 0%float)).
Defined.

(** X12. Once offline, only a [HEARTBEAT] brings the session back: over
    passes that poll no [HEARTBEAT] (position messages and messages of other
    types included) an offline session stays offline and no [heartbeat]
    signal is emitted, whatever the clock reads. *)
Theorem only_heartbeat_revives (ps : list poll) (st : locals) :
  alive st = false ->
  Forall no_heartbeat_message ps ->
  alive (snd (poll_loop ps st)) = false /\
  ups (fst (poll_loop ps st)) = [].
Proof.
  revert st. induction ps as [| p ps IH]; intros st Ha Hps; cbn [poll_loop].
  - now split.
  - inversion Hps as [| ? ? Hp Hrest]; subst.
    assert (H1 : alive (snd (iteration p st)) = false /\
                 ups (fst (iteration p st)) = []).
    { unfold iteration, receive. destruct st as [last al].
      cbn [alive] in Ha. subst al.
      assert (Hc : forall l, check_offline (t_check p) (mk_locals l false)
                             = ([], mk_locals l false)).
      { intros l. unfold check_offline. cbn [alive last_msg_time].
        now destruct (timed_out (t_check p) l). }
      destruct (msg p) as [m |] eqn:Em.
      - destruct (message_cases m) as [E | [E | [E1 E2]]].
        + now destruct (Hp m Em).
        + rewrite (on_message_position m _ _ _ E). cbn [alive].
          rewrite Hc. now split.
        + rewrite (on_message_other m _ _ _ E1 E2). cbn [alive].
          rewrite Hc. now split.
      - rewrite Hc. now split. }
    destruct (iteration p st) as [ev st']. cbn [fst snd] in H1.
    destruct H1 as [Ha' Hev].
    specialize (IH st' Ha' Hrest).
    destruct (poll_loop ps st') as [ev' st'']. cbn [fst snd] in *.
    destruct IH as [IHa IHev]. split; [exact IHa |].
    now rewrite ups_app, Hev, IHev.
Qed.

Lemma only_heartbeat_revives_positions :
  alive (snd (poll_loop [position_at 20%float; position_at 21%float]
                (mk_locals 0%float false))) = false /\
  ups (fst (poll_loop [position_at 20%float; position_at 21%float]
              (mk_locals 0%float false))) = [].
Proof.
  apply (only_heartbeat_revives [position_at 20%float; position_at 21%float]
           (mk_locals 0%float false)).
  - reflexivity.
  - repeat constructor; intros m [= <-]; discriminate.
Defined.

(** ** Position fixes and time stamps *)

Lemma check_offline_fixes (now : float) (st : locals) :
  fixes (fst (check_offline now st)) = [] /\
  last_msg_time (snd (check_offline now st)) = last_msg_time st.
Proof.
  unfold check_offline.
  destruct (timed_out now (last_msg_time st)), (alive st); now split.
Qed.

Lemma iteration_fixes (p : poll) (st : locals) :
  fixes (fst (iteration p st)) = fix_of p /\
  last_msg_time (snd (iteration p st)) = latest (last_msg_time st) p.
Proof.
  unfold iteration, receive, fix_of, latest.
  assert (H1 : fixes (fst (match msg p with
                           | Some m => on_message m (t_recv p) (ts p) st
                           | None => ([], st)
                           end))
               = match msg p with
                 | Some m =>
                     if String.eqb (get_type m) "GLOBAL_POSITION_INT"
                     then [gps_update (truediv (lat m) 1e7)
                             (truediv (lon m) 1e7)
                             (truediv (relative_alt m) 1000.0) (ts p) true]
                     else []
                 | None => []
                 end /\
               last_msg_time (snd (match msg p with
                                   | Some m => on_message m (t_recv p) (ts p) st
                                   | None => ([], st)
                                   end))
               = match msg p with
                 | Some _ => t_recv p
                 | None => last_msg_time st
                 end).
  { destruct (msg p) as [m |]; [| now split].
    destruct (message_cases m) as [E | [E | [E1 E2]]].
    - rewrite (on_message_heartbeat m _ _ _ E), E.
      destruct (alive st); now split.
    - rewrite (on_message_position m _ _ _ E), E. now split.
    - rewrite (on_message_other m _ _ _ E1 E2).
      apply String.eqb_neq in E2. rewrite E2. now split. }
  destruct (match msg p with
            | Some m => on_message m (t_recv p) (ts p) st
            | None => ([], st)
            end) as [ev1 st1].
  cbn [fst snd] in H1. destruct H1 as [F1 L1].
  pose proof (check_offline_fixes (t_check p) st1) as [F2 L2].
  destruct (check_offline (t_check p) st1) as [ev2 st2].
  cbn [fst snd] in *. rewrite fixes_app, F1, F2, L2, L1.
  now rewrite app_nil_r.
Qed.

(** X13. The loop hands on one [gps_update] for every position message it
    polls, in the order polled and with [valid] set, and nothing else as a
    position fix: liveness, the clock and the other messages have no say
    in it. *)
Theorem fixes_follow_position_messages (ps : list poll) (st : locals) :
  fixes (fst (poll_loop ps st)) = flat_map fix_of ps.
Proof.
  revert st. induction ps as [| p ps IH]; intros st;
    cbn [poll_loop flat_map]; [reflexivity |].
  pose proof (iteration_fixes p st) as [F _].
  destruct (iteration p st) as [ev st']. cbn [fst] in F.
  specialize (IH st'). destruct (poll_loop ps st') as [ev' st''].
  cbn [fst] in *. now rewrite fixes_app, F, IH.
Qed.

(** X14. After any passes [last_msg_time] is the receive time of the last
    pass that polled a message, of whatever type, and the time the loop
    started with if no pass polled one. *)
Theorem last_msg_time_is_latest (ps : list poll) (st : locals) :
  last_msg_time (snd (poll_loop ps st))
  = fold_left latest ps (last_msg_time st).
Proof.
  revert st. induction ps as [| p ps IH]; intros st;
    cbn [poll_loop fold_left]; [reflexivity |].
  pose proof (iteration_fixes p st) as [_ L].
  destruct (iteration p st) as [ev st']. cbn [snd] in L.
  specialize (IH st'). destruct (poll_loop ps st') as [ev' st''].
  cbn [snd] in *. now rewrite IH, L.
Qed.

(** ** The loop and the flag *)

(** X15. The loop does not end by itself: as long as [stop()] is not
    called, the flag stays set and [run] does not return, whatever is
    received and whatever the clock reads. *)
Theorem loop_runs_until_stopped (sched : list tick) (w : worker) :
  running w = true -> pc w <> finished ->
  forallb is_move sched = true ->
  running (snd (exec sched w)) = true /\ pc (snd (exec sched w)) <> finished.
Proof.
  revert w. induction sched as [| [p |] sched IH]; intros [pt r st] Hr Hpc Hm;
    cbn [running pc] in Hr, Hpc; subst r.
  - now split.
  - cbn [forallb is_move andb] in Hm. cbn [exec].
    assert (Hnext : running (snd (step p (mk_worker pt true st))) = true /\
                    pc (snd (step p (mk_worker pt true st))) <> finished).
    { destruct pt; cbn [step pc running vars].
      - now split.
      - destruct (receive p st). now split.
      - destruct (check_offline (t_check p) st). now split.
      - now split.
      - now destruct Hpc. }
    destruct (step p (mk_worker pt true st)) as [ev w']. cbn [snd] in Hnext.
    destruct Hnext as [Hr' Hpc'].
    specialize (IH w' Hr' Hpc' Hm).
    now destruct (exec sched w') as [os w''].
  - discriminate Hm.
Qed.

Lemma loop_runs_until_stopped_two_passes :
  running (snd (exec [move (quiet 20%float); move (quiet 20%float);
                      move (quiet 20%float); move (quiet 20%float);
                      move (position_at 21%float)]
                  (loop_head (entry 0%float)))) = true /\
  pc (snd (exec [move (quiet 20%float); move (quiet 20%float);
                 move (quiet 20%float); move (quiet 20%float);
                 move (position_at 21%float)]
             (loop_head (entry 0%float)))) <> finished.
Proof.
  apply (loop_runs_until_stopped
           [move (quiet 20%float); move (quiet 20%float);
            move (quiet 20%float); move (quiet 20%float);
            move (position_at 21%float)] (loop_head (entry 0%float)));
    [reflexivity | discriminate | reflexivity].
Defined.

(** ** The wait for the first heartbeat *)

Lemma thread_run_in_loop (hs : list happening) (w : worker) :
  thread_run hs (in_loop w)
  = (signals (fst (exec (ticks_of hs) w)),
     in_loop (snd (exec (ticks_of hs) w))).
Proof.
  revert w. induction hs as [| [now | p |] hs IH]; intros w;
    cbn [thread_run thread_step ticks_of exec].
  - reflexivity.
  - rewrite IH. reflexivity.
  - destruct (step p w) as [ev w']. rewrite IH.
    destruct (exec (ticks_of hs) w') as [os w''].
    cbn [fst snd]. now rewrite signals_app, signals_emitted.
  - rewrite IH. destruct (exec (ticks_of hs) (stop w)) as [os w'].
    reflexivity.
Qed.

Lemma moves_ticks_of (hs : list happening) :
  existsb is_worker_move hs = true -> (1 <= moves (ticks_of hs))%nat.
Proof.
  unfold moves.
  induction hs as [| [now | p |] hs IH]; cbn [existsb is_worker_move orb ticks_of filter List.length];
    intros H; try discriminate H; try lia; now apply IH.
Qed.

(** X16. [stop()] does not reach into the wait for the first heartbeat:
    until that heartbeat is seen, [run] neither emits anything nor returns,
    however often [stop()] is called. *)
Theorem wait_ignores_stop (hs : list happening) (flag : bool) :
  existsb is_first_heartbeat hs = false ->
  fst (thread_run hs (in_wait flag)) = [] /\
  returned (snd (thread_run hs (in_wait flag))) = false.
Proof.
  revert flag.
  induction hs as [| [now | p |] hs IH]; intros flag H;
    cbn [existsb is_first_heartbeat orb] in H; try discriminate H;
    cbn [thread_run thread_step].
  - now split.
  - specialize (IH flag H).
    now destruct (thread_run hs (in_wait flag)) as [ev t].
  - specialize (IH false H).
    now destruct (thread_run hs (in_wait false)) as [ev t].
Qed.

Lemma wait_ignores_stop_twice :
  fst (thread_run [stop_called; worker_moves (quiet 1%float); stop_called]
         started) = [] /\
  returned (snd (thread_run [stop_called; worker_moves (quiet 1%float);
                             stop_called] started)) = false.
Proof.
  apply (wait_ignores_stop
           [stop_called; worker_moves (quiet 1%float); stop_called] true).
  reflexivity.
Defined.

(** X17. A [stop()] that comes during the wait takes effect only after
    it: when the first heartbeat is seen [run] still emits
    [heartbeat(True)], then finds the flag cleared at the loop head, makes
    no pass, emits nothing more, and returns. *)
Theorem stop_during_wait (now : float) (hs : list happening) :
  fst (thread_run (stop_called :: first_heartbeat now :: hs) started)
  = [heartbeat true] /\
  (existsb is_worker_move hs = true ->
   returned (snd (thread_run (stop_called :: first_heartbeat now :: hs)
                    started)) = true).
Proof.
  cbn [thread_run thread_step started].
  rewrite thread_run_in_loop.
  pose proof (exec_stopped (ticks_of hs)
                (mk_worker at_while false (entry now)) eq_refl)
    as (Hlen & _ & Hdone).
  cbn [pc pending moves_left fst snd] in *.
  destruct (exec (ticks_of hs) (mk_worker at_while false (entry now)))
    as [os w'].
  cbn [fst snd app returned] in *. split.
  - destruct (signals os); [reflexivity | cbn in Hlen; lia].
  - intros Hm. now rewrite (Hdone (moves_ticks_of hs Hm)).
Qed.

Lemma stop_during_wait_then_messages :
  fst (thread_run (stop_called :: first_heartbeat 0%float
                     :: [worker_moves (position_at 1%float);
                         worker_moves (position_at 2%float)]) started)
  = [heartbeat true] /\
  returned (snd (thread_run (stop_called :: first_heartbeat 0%float
                               :: [worker_moves (position_at 1%float);
                                   worker_moves (position_at 2%float)])
                   started)) = true.
Proof.
  pose proof (stop_during_wait 0%float
                [worker_moves (position_at 1%float);
                 worker_moves (position_at 2%float)]) as [H1 H2].
  split; [exact H1 | apply H2; reflexivity].
Defined.

End MavlinkWorkerMore.
